(** * browser/form.go: the HTML form of the surf browser

    A shallow embedding of [Form] and of the functions of form.go, and the
    properties of its construction, mutation and submission.

    A Go [map[string][]string] is a [gmap string (list string)]; the order in
    which a [range] statement visits a map is chosen by the Go runtime at each
    statement, and is a parameter here.  The methods of [*Form] have a pointer
    receiver: they are state transformers on a [World] that holds the form,
    the calls received by the event dispatcher, and the runtime's position in
    its sequence of iteration orders.  [send] hands the handlers of the
    dispatcher the form itself and a payload whose slices are those of the
    fields: what the handlers do to the fields while [Do] runs is a parameter
    as well. *)

From stdpp Require Import gmap strings list fin_maps.
From Stdlib Require Import Ascii String.

Open Scope string_scope.
Open Scope list_scope.

(** ** net/url *)

Abbreviation Values := (gmap string (list string)).

Module url.

(** [func (v Values) Set(key, value string) { v[key] = []string{value} }] *)
Definition Values_Set (key value : string) (v : Values) : Values :=
  <[key := [value]]> v.

(** [func (v Values) Add(key, value string) { v[key] = append(v[key], value) }];
    indexing a missing key yields the nil slice. *)
Definition Values_Add (key value : string) (v : Values) : Values :=
  <[key := default [] (v !! key) ++ [value]]> v.

End url.

(** ** strings *)

Module strings.

Definition is_ascii_byte (c : ascii) : bool := (N_of_ascii c <? 128)%N.

Definition is_lower_byte (c : ascii) : bool :=
  ((97 <=? N_of_ascii c) && (N_of_ascii c <=? 122))%N.

(** [c -= 'a' - 'A'] on the bytes ['a'..'z']. *)
Definition upper_byte (c : ascii) : ascii :=
  if is_lower_byte c then ascii_of_N (N_of_ascii c - 32) else c.

Fixpoint all_bytes (p : ascii → bool) (s : string) : bool :=
  match s with
  | EmptyString => true
  | String c s' => p c && all_bytes p s'
  end.

Fixpoint map_bytes (f : ascii → ascii) (s : string) : string :=
  match s with
  | EmptyString => EmptyString
  | String c s' => String (f c) (map_bytes f s')
  end.

(** [strings.ToUpper]: a string of ASCII bytes is returned as it is when it
    has no lower-case letter and mapped byte by byte otherwise; any other
    string goes through [Map(unicode.ToUpper, s)], whose tables are the
    parameter [unicode_upper]. *)
Definition ToUpper (unicode_upper : string → string) (s : string) : string :=
  if all_bytes is_ascii_byte s then
    if all_bytes (λ c, negb (is_lower_byte c)) s then s
    else map_bytes upper_byte s
  else unicode_upper s.

End strings.

(** ** fmt *)

Module fmt.

(** [fmt.Sprintf] for a format with [%s] verbs and string arguments: each
    verb is replaced by the next argument, and by [%!s(MISSING)] when the
    arguments have run out. *)
Fixpoint Sprintf (format : string) (a : list string) : string :=
  match format with
  | String "%" (String "s" rest) =>
      match a with
      | x :: a' => x +:+ Sprintf rest a'
      | [] => "%!s(MISSING)" +:+ Sprintf rest []
      end
  | String c rest => String c (Sprintf rest a)
  | EmptyString => EmptyString
  end.

End fmt.

(** ** github.com/headzoo/surf/errors *)

Module errors.

(** Modelled from the spec: the errors package, which form.go imports and
    which is not part of this file.  The error values that reach a caller of
    the form are of two distinguished kinds, field-not-found and
    invalid-button, both carrying a message that names the offending field
    or button, or are whatever other error the handlers of an event return.
    The constructors format their message as [fmt.Sprintf] does. *)
Inductive error : Type :=
  | ElementNotFound (msg : string)
  | InvalidFormValue (msg : string)
  | Other (msg : string).

Definition NewElementNotFound (msg : string) (a : list string) : error :=
  ElementNotFound (fmt.Sprintf msg a).

Definition NewInvalidFormValue (msg : string) (a : list string) : error :=
  InvalidFormValue (fmt.Sprintf msg a).

End errors.

(** ** github.com/PuerkitoBio/goquery *)

Module goquery.

(** What form.go asks of a [*goquery.Selection]: the matching descendants,
    the one-element selections that [Each] hands to its callback, in
    document order, and the value of an attribute with its presence flag. *)
Class Dom (Selection : Type) := {
  Find : Selection → string → Selection;
  Each : Selection → list Selection;
  Attr : Selection → string → option string;
}.

(** [Length] is the number of elements [Each] visits. *)
Definition Length `{Dom Selection} (s : Selection) : nat := List.length (Each s).

End goquery.

(** ** browser *)

(** What form.go takes from its imports.  [URL] is [*url.URL], and
    [url_Parse] answers [None] for the nil pointer that [url.Parse] returns
    together with an error; [unicode_upper] is the case mapping behind
    [strings.ToUpper]; [Event] is [event.Event] and [event_Submit] is
    [event_Submit]; [Dispatcher] is [*event.Dispatcher], and [NewDispatcher]
    is [event.NewDispatcher()]. *)
Class Host : Type := {
  Selection : Type;
  Selection_dom :: goquery.Dom Selection;
  URL : Type;
  url_Parse : string → option URL;
  unicode_upper : string → string;
  Event : Type;
  event_Submit : Event;
  Dispatcher : Type;
  NewDispatcher : Dispatcher;
}.

Record Form `{Host} : Type := {
  dispatcher : Dispatcher;
  selection : Selection;
  method : string;
  action : option URL;
  fields : Values;
  buttons : Values;
}.

(** What the handlers of an event do to one field of the form they are
    handed.  The payload holds, under the name of a field, the very slice of
    the field: a handler that writes the cells of that slice,
    [values[name][i] = ...], writes the field, cell by cell and without
    changing its length, and [cell i old] is what it leaves in cell [i],
    [old] itself where it leaves the cell alone.  The handler also holds the
    form, and can set the field to one value with the form's own [Input].
    Handlers that submit the form again from inside a submission are not
    covered. *)
Inductive Handling : Type :=
  | Writes (cell : nat → string → string)
  | Inputs (value : string).

(** What runs the methods of a form.  [Do] is the method of the embedded
    dispatcher: it hands the event, its sender and its arguments to the bound
    handlers and returns their error, [None] for [nil]; [handling] is what
    the handlers do meanwhile to the field of each name.  [range n m] is the
    order in which the [n]-th [range] statement executed by the program
    visits the entries of the map [m]. *)
Class Runtime `{Host} : Type := {
  Do : Dispatcher → Event → Form → Values → option errors.error;
  handling : Dispatcher → Event → Form → Values → string → Handling;
  range : nat → Values → list (string * list string);
}.

Section browser.

Context `{Runtime}.

(** What a call leaves behind: the form behind the receiver, the calls of
    [Do] so far, oldest first, and the number of [range] statements
    executed. *)
Record World : Type := {
  form : Form;
  calls : list (Event * Form * Values);
  clock : nat;
}.

(** A call returns its error ([None] for [nil]) or panics. *)
Inductive outcome : Type :=
  | Returns (err : option errors.error)
  | Panics.

Definition tick (w : World) : World :=
  {| form := form w; calls := calls w; clock := S (clock w) |}.

Definition with_fields (fields' : Values) (f : Form) : Form :=
  {| dispatcher := dispatcher f; selection := selection f;
     method := method f; action := action f;
     fields := fields'; buttons := buttons f |}.

(** Modelled from the spec: [attrOrDefault], a helper of this package that
    form.go calls and does not define; the method and the action default
    when the underlying attribute is absent, and are the attribute's value
    otherwise. *)
Definition attrOrDefault (name def : string) (s : Selection) : string :=
  match goquery.Attr s name with
  | Some a => a
  | None => def
  end.

(** The callback that [serializeForm] passes to [Each], on the two maps it
    closes over. *)
Definition visit (acc : Values * Values) (s : Selection) : Values * Values :=
  let '(fields, buttons) := acc in
  match goquery.Attr s "name" with
  | Some name =>
      match goquery.Attr s "type" with
      | Some typ =>
          if decide (typ = "submit") then
            match goquery.Attr s "value" with
            | Some val => (fields, url.Values_Add name val buttons)
            | None => (fields, url.Values_Add name "" buttons)
            end
          else
            match goquery.Attr s "value" with
            | Some val => (url.Values_Add name val fields, buttons)
            | None => (fields, buttons)
            end
      | None => (fields, buttons)
      end
  | None => (fields, buttons)
  end.

Definition serializeForm (sel : Selection) : Values * Values :=
  let input := goquery.Find sel "input,button" in
  if decide (goquery.Length input = 0) then (∅, ∅)
  else foldl visit (∅, ∅) (goquery.Each input).

Definition formAttributes (s : Selection) : string * option URL :=
  let method := strings.ToUpper unicode_upper (attrOrDefault "method" "GET" s) in
  let action := url_Parse (attrOrDefault "action" "" s) in
  (method, action).

Definition NewForm (sel : Selection) : Form :=
  let '(fields, buttons) := serializeForm sel in
  let '(method, action) := formAttributes sel in
  {| dispatcher := NewDispatcher; selection := sel;
     method := method; action := action;
     fields := fields; buttons := buttons |}.

Definition Method (f : Form) : string := method f.

Definition Action (f : Form) : option URL := action f.

Definition Find (expr : string) (f : Form) : Selection :=
  goquery.Find (selection f) expr.

Definition Input (name value : string) (w : World) : World * option errors.error :=
  let f := form w in
  match fields f !! name with
  | Some _ =>
      ({| form := with_fields (url.Values_Set name value (fields f)) f;
          calls := calls w; clock := clock w |}, None)
  | None =>
      (w, Some (errors.NewElementNotFound "No input found with name '%s'." [name]))
  end.

(** The payload that [send] assembles when its [range] statement visits the
    fields in the order [order]. *)
Definition payload (order : list (string * list string))
    (buttonName buttonValue : string) : Values :=
  let values := foldl (λ values '(name, vals), <[name := vals]> values) ∅ order in
  if decide (buttonName ≠ "") then url.Values_Set buttonName buttonValue values
  else values.

(** The fields as the handlers leave them.  A field set by [Input] holds
    the one value.  The cells of any other field are written through the
    payload, except for the field that has the name of the button: there
    [values.Set] has put a new slice into the payload, and the slice of the
    field is out of the handlers' reach. *)
Definition touched (buttonName : string) (h : string → Handling)
    (fields : Values) : Values :=
  map_imap (λ name vals,
    Some (match h name with
          | Inputs value => [value]
          | Writes cell =>
              if decide (buttonName ≠ "" ∧ name = buttonName) then vals
              else imap cell vals
          end)) fields.

(** The form after the handlers of the "submit" event have run on it and on
    the payload [values]. *)
Definition handled (buttonName : string) (values : Values) (f : Form) : Form :=
  with_fields
    (touched buttonName (handling (dispatcher f) event_Submit f values) (fields f)) f.

Definition send (buttonName buttonValue : string) (w : World)
    : World * option errors.error :=
  let f := form w in
  let values := payload (range (clock w) (fields f)) buttonName buttonValue in
  ({| form := handled buttonName values f;
      calls := calls w ++ [(event_Submit, f, values)];
      clock := S (clock w) |},
   Do (dispatcher f) event_Submit f values).

Definition Click (button : string) (w : World) : World * outcome :=
  let f := form w in
  match buttons f !! button with
  | None =>
      (w, Returns (Some (errors.NewInvalidFormValue
         "Form does not contain a button with the name '%s'." [button])))
  | Some [] => (w, Panics)
  | Some (value :: _) =>
      let '(w', err) := send button value w in (w', Returns err)
  end.

Definition Submit (w : World) : World * outcome :=
  let f := form w in
  let no_button w := let '(w', err) := send "" "" w in (w', Returns err) in
  if decide (0 < size (buttons f)) then
    match range (clock w) (buttons f) with
    | (name, _) :: _ => Click name (tick w)
    | [] => no_button (tick w)
    end
  else no_button w.

(** The program around a form: its constructor, then any calls. *)
Inductive Call : Type :=
  | CallMethod
  | CallAction
  | CallFind (expr : string)
  | CallInput (name value : string)
  | CallClick (button : string)
  | CallSubmit
  | CallSend (buttonName buttonValue : string).

Inductive Reply : Type :=
  | ReplyString (s : string)
  | ReplyURL (u : option URL)
  | ReplySelection (s : Selection)
  | ReplyError (o : outcome).

Definition call (c : Call) (w : World) : World * Reply :=
  match c with
  | CallMethod => (w, ReplyString (Method (form w)))
  | CallAction => (w, ReplyURL (Action (form w)))
  | CallFind expr => (w, ReplySelection (Find expr (form w)))
  | CallInput name value =>
      let '(w', err) := Input name value w in (w', ReplyError (Returns err))
  | CallClick button =>
      let '(w', o) := Click button w in (w', ReplyError o)
  | CallSubmit =>
      let '(w', o) := Submit w in (w', ReplyError o)
  | CallSend buttonName buttonValue =>
      let '(w', err) := send buttonName buttonValue w in
      (w', ReplyError (Returns err))
  end.

(** A panic ends the program: the calls after it are not made. *)
Fixpoint run (cs : list Call) (w : World) : World * list Reply :=
  match cs with
  | [] => (w, [])
  | c :: cs' =>
      let '(w', r) := call c w in
      match r with
      | ReplyError Panics => (w', [r])
      | _ => let '(w'', rs) := run cs' w' in (w'', r :: rs)
      end
  end.

Definition start (sel : Selection) : World :=
  {| form := NewForm sel; calls := []; clock := 0 |}.

(** The world after one more "submit" event with the arguments [values],
    sent by the form itself for the button [buttonName], the empty name for
    none: the event is recorded with the form as it was sent, and the form
    is as the handlers leave it. *)
Definition submitted (buttonName : string) (values : Values) (w : World) : World :=
  {| form := handled buttonName values (form w);
     calls := calls w ++ [(event_Submit, form w, values)];
     clock := S (clock w) |}.

(** What the handlers answer to that event. *)
Definition answer (values : Values) (w : World) : outcome :=
  Returns (Do (dispatcher (form w)) event_Submit (form w) values).


(** No key of the map stands for an empty list. *)
Definition populated (m : Values) : Prop :=
  ∀ k vs, m !! k = Some vs → vs ≠ [].

(** The elements that [serializeForm] visits, in the order of the scan. *)
Definition scanned (sel : Selection) : list Selection :=
  goquery.Each (goquery.Find sel "input,button").

(** From the specification: what a scanned element gives to the button
    [name], the value of a submit-type element of that name, the empty
    string when it has no value attribute. *)
Definition button_value (name : string) (s : Selection) : option string :=
  match goquery.Attr s "name", goquery.Attr s "type" with
  | Some n, Some t =>
      if decide (n = name ∧ t = "submit")
      then Some (default "" (goquery.Attr s "value")) else None
  | _, _ => None
  end.

(** From the specification: what a scanned element gives to the field
    [name], the value attribute, when present, of an element of that name
    with a type other than submit. *)
Definition field_value (name : string) (s : Selection) : option string :=
  match goquery.Attr s "name", goquery.Attr s "type" with
  | Some n, Some t =>
      if decide (n = name ∧ t ≠ "submit") then goquery.Attr s "value" else None
  | _, _ => None
  end.

(** From the specification: a name is a key exactly when it has a value. *)
Definition entry (vs : list string) : option (list string) :=
  match vs with [] => None | _ => Some vs end.

(** From the specification: [Click b] on a key [b] of [buttons] submits the
    fields with the entry of [b] set to the first value of the button. *)
Definition Click_sets_button (w : World) (b : string) : Prop :=
  ∀ v vs, buttons (form w) !! b = Some (v :: vs) →
    Click b w = (submitted b (<[b := [v]]> (fields (form w))) w,
                 answer (<[b := [v]]> (fields (form w))) w).




(** The keys are the same, and each list is as long as it was or holds a
    single value. *)
Definition reshaped (F F' : Values) : Prop :=
  dom F' = dom F ∧
  ∀ k vs', F' !! k = Some vs' →
    ∃ vs, F !! k = Some vs ∧
          (List.length vs' = List.length vs ∨ List.length vs' = 1%nat).

(** All of a form but the values of its fields. *)
Definition evolves (f f' : Form) : Prop :=
  dispatcher f' = dispatcher f ∧ selection f' = selection f ∧
  method f' = method f ∧ action f' = action f ∧
  buttons f' = buttons f ∧ reshaped (fields f) (fields f').

(** From the specification: the payloads that a submission of the form can
    carry, the fields alone or with the first value of one button. *)
Definition submit_payload (f : Form) (p : Values) : Prop :=
  p = fields f ∨
  ∃ b v vs, buttons f !! b = Some (v :: vs) ∧ p = <[b := [v]]> (fields f).

(** The calls that can reach [send]. *)
Definition may_submit (c : Call) : bool :=
  match c with
  | CallClick _ | CallSubmit | CallSend _ _ => true
  | _ => false
  end.

Fixpoint submissions (cs : list Call) : nat :=
  match cs with
  | [] => 0
  | c :: cs' => (if may_submit c then 1 else 0) + submissions cs'
  end.

(** An event as [send] makes it: a "submit" event whose payload is the
    fields of its sender, alone or with one entry set to a single value. *)
Definition sent_by_send (c : Event * Form * Values) : Prop :=
  c.1.1 = event_Submit ∧
  (c.2 = fields c.1.2 ∨ ∃ bn bv, c.2 = <[bn := [bv]]> (fields c.1.2)).

End browser.

(** An order of iteration over a map that visits the key [b] first. *)
Definition range_from (b : string) (m : Values) : list (string * list string) :=
  match m !! b with
  | Some vs => (b, vs) :: map_to_list (delete b m)
  | None => map_to_list m
  end.

(** ** A document model

    Element trees with their attributes in source order, enough of goquery
    for the selectors that are comma-separated tag names, and a runtime whose
    [range] statements start at a position that moves from one statement to
    the next. *)

Module html.

#[local] Set Warnings "-register-all".

Inductive Node : Type :=
  | Element (tag : string) (attrs : list (string * string)) (children : list Node).

Definition tag_of (n : Node) : string :=
  match n with Element t _ _ => t end.

Definition attrs_of (n : Node) : list (string * string) :=
  match n with Element _ a _ => a end.

(** The descendants of a node, in document order. *)
Fixpoint descendants (n : Node) : list Node :=
  match n with
  | Element _ _ cs => flat_map (λ c, c :: descendants c) cs
  end.

(** The tag names of a selector such as [input,button]. *)
Fixpoint selector_tags (cur : string) (expr : string) : list string :=
  match expr with
  | EmptyString => [cur]
  | String "," rest => cur :: selector_tags "" rest
  | String c rest => selector_tags (cur +:+ String c "") rest
  end.

Fixpoint attr_lookup (name : string) (a : list (string * string)) : option string :=
  match a with
  | [] => None
  | (k, v) :: a' => if decide (k = name) then Some v else attr_lookup name a'
  end.

#[export] Instance dom : goquery.Dom (list Node) := {
  Find sel expr :=
    filter (λ n, tag_of n ∈ selector_tags "" expr) (flat_map descendants sel);
  Each sel := map (λ n, [n]) sel;
  Attr sel name :=
    match sel with
    | [] => None
    | n :: _ => attr_lookup name (attrs_of n)
    end;
}.

(** A dispatcher is the answer of its handlers; a new one has none bound. *)
#[export] Instance host : Host := {
  Selection := list Node;
  URL := string;
  url_Parse s := if decide (String.prefix ":" s = true) then None else Some s;
  unicode_upper s := s;
  Event := string;
  event_Submit := "submit";
  Dispatcher := option errors.error;
  NewDispatcher := None;
}.

(** The handlers that leave the form alone. *)
#[export] Instance runtime : Runtime := {
  Do d _ _ _ := d;
  handling _ _ _ _ _ := Writes (λ _ old, old);
  range n m := rotate n (map_to_list m);
}.

(** A handler that writes "z" into the first cell of [values[target]]. *)
Definition scribbling (target : string) : Runtime := {|
  Do d _ _ _ := d;
  handling _ _ _ _ name :=
    Writes (λ i old, if decide (name = target ∧ i = 0%nat) then "z" else old);
  range n m := rotate n (map_to_list m);
|}.

Definition input (attrs : list (string * string)) : Node := Element "input" attrs [].

(** [<form method="post" action="/login"> ... </form>] *)
Definition login : list Node :=
  [Element "form" [("method", "post"); ("action", "/login")]
     [input [("name", "user"); ("type", "text"); ("value", "joe")];
      Element "p" []
        [input [("name", "tag"); ("type", "checkbox"); ("value", "a")];
         input [("name", "tag"); ("type", "checkbox"); ("value", "b")];
         input [("name", "note")];
         input [("name", "memo"); ("type", "text")]];
      input [("name", "go"); ("type", "submit"); ("value", "1")];
      Element "button" [("name", "cancel"); ("type", "submit")] []]].

(** A form whose only button has the empty name. *)
Definition anonymous : list Node :=
  [Element "form" []
     [input [("name", "q"); ("type", "text"); ("value", "x")];
      input [("name", ""); ("type", "submit"); ("value", "go")]]].

(** A form without any button. *)
Definition search : list Node :=
  [Element "form" [("action", ":bad")]
     [input [("name", "q"); ("type", "text"); ("value", "x")]]].

(** A form whose elements have a name or a type, never both. *)
Definition untyped : list Node :=
  [Element "form" [("method", "get")]
     [input [("name", "q"); ("value", "x")];
      input [("type", "submit"); ("value", "go")];
      Element "button" [] []]].

(** A form with two buttons of the same name, and a field of that name. *)
Definition twice : list Node :=
  [Element "form" []
     [input [("name", "go"); ("type", "hidden"); ("value", "0")];
      input [("name", "go"); ("type", "submit"); ("value", "1")];
      input [("name", "go"); ("type", "submit"); ("value", "2")]]].

End html.

(** ** Properties *)

Section properties.

Context `{Runtime}.

Implicit Types (w : World) (f : Form) (m : Values) (s sel : Selection).

(** Go leaves the order of a [range] over a map unspecified, and visits
    each entry once. *)
Hypothesis range_perm : ∀ n m, range n m ≡ₚ map_to_list m.

(** *** Maps *)

Lemma foldl_insert_union (l : list (string * list string)) m :
  NoDup l.*1 →
  foldl (λ values '(name, vals), <[name := vals]> values) m l = list_to_map l ∪ m.
Proof.
  revert m. induction l as [|[k v] l IH]; intros m Hnd; simpl.
  - by rewrite (left_id_L ∅ (∪)).
  - apply NoDup_cons in Hnd as [Hk Hnd].
    rewrite IH; [|done].
    rewrite <- insert_union_r by (by apply not_elem_of_list_to_map_1).
    by rewrite insert_union_l.
Qed.

Lemma range_NoDup n m : NoDup (range n m).*1.
Proof. rewrite range_perm. apply NoDup_fst_map_to_list. Qed.

(** The loop of [send] copies the map it ranges over, whatever the order. *)
Lemma range_copy n m :
  foldl (λ values '(name, vals), <[name := vals]> values) ∅ (range n m) = m.
Proof.
  rewrite foldl_insert_union; [|apply range_NoDup].
  rewrite (right_id_L ∅ (∪)).
  rewrite <- (list_to_map_to_list m) at 2.
  apply list_to_map_proper; [apply range_NoDup | apply range_perm].
Qed.

Lemma payload_range n m buttonName buttonValue :
  payload (range n m) buttonName buttonValue =
  if decide (buttonName ≠ "") then <[buttonName := [buttonValue]]> m else m.
Proof. unfold payload. by rewrite range_copy. Qed.

Lemma range_head_elem n m k vs rest :
  range n m = (k, vs) :: rest → m !! k = Some vs.
Proof.
  intros Hr. apply elem_of_map_to_list. rewrite <- (range_perm n), Hr. left.
Qed.

Lemma range_nonempty n m : m ≠ ∅ → range n m ≠ [].
Proof.
  intros Hm Hr. apply Hm, map_to_list_empty_iff.
  apply Permutation_nil_r. by rewrite <- (range_perm n), Hr.
Qed.

(** *** Click *)

Lemma send_submitted buttonName buttonValue w :
  send buttonName buttonValue w =
  (submitted buttonName
     (payload (range (clock w) (fields (form w))) buttonName buttonValue) w,
   Do (dispatcher (form w)) event_Submit (form w)
      (payload (range (clock w) (fields (form w))) buttonName buttonValue)).
Proof. reflexivity. Qed.

(** What [send] submits does not depend on the order of its loop. *)
Lemma send_range buttonName buttonValue w :
  send buttonName buttonValue w =
  let values :=
    if decide (buttonName = "") then fields (form w)
    else <[buttonName := [buttonValue]]> (fields (form w)) in
  (submitted buttonName values w,
   Do (dispatcher (form w)) event_Submit (form w) values).
Proof.
  rewrite send_submitted, payload_range.
  destruct (decide (buttonName = "")) as [->|Hne].
  - rewrite decide_False; [done | by intros Hne; apply Hne].
  - by rewrite decide_True.
Qed.

Lemma Click_send b v vs w :
  buttons (form w) !! b = Some (v :: vs) →
  Click b w = ((send b v w).1, Returns (send b v w).2).
Proof. intros Hb. unfold Click. by rewrite Hb. Qed.

Lemma Submit_send w :
  buttons (form w) = ∅ →
  Submit w = ((send "" "" w).1, Returns (send "" "" w).2).
Proof.
  intros Hb. unfold Submit. rewrite Hb, map_size_empty.
  by rewrite decide_False by lia.
Qed.

(** C1, as amended: when [b] is a key of [buttons] whose first value is [v],
    [Click b] sends one "submit" event whose payload is the fields with the
    entry of [b] set to [[v]], over a field of that name or as a new entry,
    and returns what the handlers answer; unless [b] is the empty name,
    where the payload is the fields alone. *)
Theorem Click_known_button w b v vs :
  buttons (form w) !! b = Some (v :: vs) →
  let values :=
    if decide (b = "") then fields (form w)
    else <[b := [v]]> (fields (form w)) in
  Click b w = (submitted b values w, answer values w).
Proof.
  intros Hb values. rewrite (Click_send b v vs) by done.
  rewrite send_range. simpl. by fold values.
Qed.

(** C3: [Click] with a name that is not a key of [buttons] returns an
    InvalidFormValue error whose message names the button, and leaves the
    world as it was: no event was sent, and the form is unchanged. *)
Theorem Click_unknown_button w b :
  buttons (form w) !! b = None →
  (Click b w).2 = Returns (Some (errors.InvalidFormValue
    ("Form does not contain a button with the name '" +:+ b +:+ "'."))) ∧
  calls (Click b w).1 = calls w ∧
  fields (form (Click b w).1) = fields (form w) ∧
  buttons (form (Click b w).1) = buttons (form w) ∧
  (Click b w).1 = w.
Proof. intros Hb. unfold Click. by rewrite Hb. Qed.

(** *** Input *)

(** C2: [Input] on a key of [fields] returns nil and replaces the whole list
    of that key by the one value, whatever the list was; on any other name
    it returns an ElementNotFound error whose message names the field and
    leaves the world as it was.  Either way the keys of [fields] are the
    same afterwards. *)
Theorem Input_replaces_or_fails w name value :
  (∀ vs, fields (form w) !! name = Some vs →
     (Input name value w).2 = None ∧
     fields (form (Input name value w).1) = <[name := [value]]> (fields (form w)) ∧
     fields (form (Input name value w).1) !! name = Some [value]) ∧
  (fields (form w) !! name = None →
     (Input name value w).2 = Some (errors.ElementNotFound
       ("No input found with name '" +:+ name +:+ "'.")) ∧
     (Input name value w).1 = w) ∧
  dom (fields (form (Input name value w).1)) = dom (fields (form w)).
Proof.
  unfold Input. split_and!.
  - intros vs Hn. rewrite Hn. simpl. unfold url.Values_Set.
    by rewrite lookup_insert_eq.
  - intros Hn. by rewrite Hn.
  - destruct (fields (form w) !! name) as [vs|] eqn:Hn; [|done].
    simpl. unfold url.Values_Set. rewrite dom_insert_L.
    apply subseteq_union_1_L, singleton_subseteq_l. by eapply elem_of_dom_2.
Qed.

(** *** Submit *)

(** C4: on a form without buttons, [Submit] sends one "submit" event whose
    payload is the fields, with no other key, and returns what the handlers
    answer. *)
Theorem Submit_no_buttons w :
  buttons (form w) = ∅ →
  Submit w = (submitted "" (fields (form w)) w, answer (fields (form w)) w).
Proof.
  intros Hb. rewrite Submit_send by done.
  by rewrite send_range.
Qed.

Lemma Click_tick b w :
  (Click b (tick w)).2 = (Click b w).2 ∧
  calls (Click b (tick w)).1 = calls (Click b w).1 ∧
  form (Click b (tick w)).1 = form (Click b w).1.
Proof.
  unfold Click. change (form (tick w)) with (form w).
  destruct (buttons (form w) !! b) as [[|v vs]|]; [done| |done].
  rewrite !send_submitted, !payload_range. done.
Qed.

Lemma Submit_Click w :
  buttons (form w) ≠ ∅ →
  ∃ b vs rest, range (clock w) (buttons (form w)) = (b, vs) :: rest ∧
               Submit w = Click b (tick w).
Proof.
  intros Hb. unfold Submit.
  rewrite decide_True.
  2:{ destruct (decide (size (buttons (form w)) = 0)) as [Hz%map_size_empty_iff|]; [done|lia]. }
  destruct (range (clock w) (buttons (form w))) as [|[b vs] rest] eqn:Hr.
  - by apply range_nonempty in Hr.
  - by exists b, vs, rest.
Qed.

(** C5: on a form with a button, [Submit] is [Click b] for the name [b] that
    the [range] over [buttons] visits first, which is a key of [buttons]:
    it returns what that [Click] returns, sends the events it sends and
    leaves the form it leaves.  When [buttons] has the one key [b], that is
    [Click b]. *)
Theorem Submit_clicks_some_button w :
  buttons (form w) ≠ ∅ →
  (∃ b, is_Some (buttons (form w) !! b) ∧
        Submit w = Click b (tick w) ∧
        (Submit w).2 = (Click b w).2 ∧
        calls (Submit w).1 = calls (Click b w).1 ∧
        form (Submit w).1 = form (Click b w).1) ∧
  (∀ b vs, buttons (form w) = {[b := vs]} →
        (Submit w).2 = (Click b w).2 ∧
        calls (Submit w).1 = calls (Click b w).1 ∧
        form (Submit w).1 = form (Click b w).1).
Proof.
  intros Hb.
  destruct (Submit_Click w Hb) as (b & vs & rest & Hr & HS).
  pose proof (range_head_elem _ _ _ _ _ Hr) as Hk.
  pose proof (Click_tick b w) as (Ho & Hc & Hf).
  split.
  - exists b. rewrite HS. by eauto.
  - intros b' vs' Hone. rewrite Hone in Hk.
    apply lookup_singleton_Some in Hk as [-> _].
    by rewrite HS.
Qed.

(** *** Construction *)

Lemma serializeForm_scan sel :
  serializeForm sel = foldl visit (∅, ∅) (scanned sel).
Proof.
  unfold serializeForm, scanned, goquery.Length.
  case_decide as Hlen; [|done].
  by apply nil_length_inv in Hlen as ->.
Qed.

Lemma Values_Add_lookup k v m name :
  default [] (url.Values_Add k v m !! name) =
  default [] (m !! name) ++ (if decide (k = name) then [v] else []).
Proof.
  unfold url.Values_Add. case_decide as Hk.
  - subst. by rewrite lookup_insert_eq.
  - rewrite lookup_insert_ne by done. by rewrite (right_id_L [] (++)).
Qed.

Lemma Values_Add_populated k v m : populated m → populated (url.Values_Add k v m).
Proof.
  intros Hm k' vs. unfold url.Values_Add.
  destruct (decide (k = k')) as [->|Hk].
  - rewrite lookup_insert_eq. intros [= <-]. by destruct (default [] (m !! k')).
  - rewrite lookup_insert_ne by done. apply Hm.
Qed.

Lemma Values_Add_changes k v m : url.Values_Add k v m ≠ m.
Proof.
  intros Heq. pose proof (Values_Add_lookup k v m k) as Hl.
  rewrite Heq, decide_True in Hl by done.
  apply (f_equal List.length) in Hl. rewrite length_app in Hl. simpl in Hl. lia.
Qed.

Lemma populated_entry m k : populated m → m !! k = entry (default [] (m !! k)).
Proof.
  intros Hm. destruct (m !! k) as [vs|] eqn:Hk; [|done].
  apply Hm in Hk. by destruct vs.
Qed.

Lemma populated_empty : populated ∅.
Proof. intros k vs. by rewrite lookup_empty. Qed.

(** One element of the scan adds at most one value, at the end of the list
    of its name. *)
Lemma visit_values F B s name :
  default [] ((visit (F, B) s).1 !! name) =
    default [] (F !! name) ++ option_list (field_value name s) ∧
  default [] ((visit (F, B) s).2 !! name) =
    default [] (B !! name) ++ option_list (button_value name s).
Proof.
  unfold visit, field_value, button_value.
  destruct (goquery.Attr s "name") as [n|]; simpl;
    [|by rewrite !(right_id_L [] (++))].
  destruct (goquery.Attr s "type") as [t|]; simpl;
    [|by rewrite !(right_id_L [] (++))].
  destruct (decide (t = "submit")) as [->|Ht];
    destruct (goquery.Attr s "value") as [val|]; simpl;
    rewrite ?Values_Add_lookup;
    destruct (decide (n = name)) as [->|Hn];
    repeat (case_decide; try (exfalso; intuition congruence));
    simpl; by rewrite ?(right_id_L [] (++)).
Qed.

Lemma visit_populated F B s :
  populated F → populated B →
  populated (visit (F, B) s).1 ∧ populated (visit (F, B) s).2.
Proof.
  intros HF HB. unfold visit.
  repeat case_match; simpl; auto using Values_Add_populated.
Qed.

Lemma scan_values l F B name :
  default [] ((foldl visit (F, B) l).1 !! name) =
    default [] (F !! name) ++ omap (field_value name) l ∧
  default [] ((foldl visit (F, B) l).2 !! name) =
    default [] (B !! name) ++ omap (button_value name) l.
Proof.
  revert F B. induction l as [|s l IH]; intros F B; cbn [foldl omap list_omap].
  - by rewrite !(right_id_L [] (++)).
  - destruct (visit (F, B) s) as [F' B'] eqn:Hv.
    destruct (IH F' B') as [IHF IHB]. rewrite IHF, IHB.
    destruct (visit_values F B s name) as [HF HB].
    rewrite Hv in HF, HB. simpl in HF, HB. rewrite HF, HB.
    rewrite <- !(assoc_L (++)).
    by destruct (field_value name s), (button_value name s).
Qed.

Lemma scan_populated l F B :
  populated F → populated B →
  populated (foldl visit (F, B) l).1 ∧ populated (foldl visit (F, B) l).2.
Proof.
  revert F B. induction l as [|s l IH]; intros F B HF HB; cbn [foldl]; [done|].
  destruct (visit_populated F B s HF HB) as [HF' HB'].
  destruct (visit (F, B) s) as [F' B']. by apply IH.
Qed.

Lemma NewForm_maps sel :
  fields (NewForm sel) = (serializeForm sel).1 ∧
  buttons (NewForm sel) = (serializeForm sel).2.
Proof. unfold NewForm. by destruct (serializeForm sel), (formAttributes sel). Qed.

Lemma NewForm_populated sel :
  populated (fields (NewForm sel)) ∧ populated (buttons (NewForm sel)).
Proof.
  destruct (NewForm_maps sel) as [-> ->]. rewrite serializeForm_scan.
  apply scan_populated; apply populated_empty.
Qed.

(** C6: [serializeForm] folds [visit] over the scanned elements, and for
    each of them, whatever the maps so far: the element changes [buttons]
    exactly when it has a name attribute and a type attribute equal to
    "submit", and then leaves [fields] alone; with a name and no type
    attribute it changes neither map; with a name and a type other than
    "submit" it leaves [buttons] alone and changes [fields] exactly when it
    has a value attribute. *)
Theorem visit_classifies sel :
  serializeForm sel = foldl visit (∅, ∅) (scanned sel) ∧
  ∀ s F B,
    ((visit (F, B) s).2 ≠ B ↔
       ∃ name, goquery.Attr s "name" = Some name ∧
               goquery.Attr s "type" = Some "submit") ∧
    ((visit (F, B) s).2 ≠ B → (visit (F, B) s).1 = F) ∧
    (∀ name, goquery.Attr s "name" = Some name →
             goquery.Attr s "type" = None →
             visit (F, B) s = (F, B)) ∧
    (∀ name typ, goquery.Attr s "name" = Some name →
                 goquery.Attr s "type" = Some typ → typ ≠ "submit" →
                 (visit (F, B) s).2 = B ∧
                 ((visit (F, B) s).1 ≠ F ↔ is_Some (goquery.Attr s "value"))).
Proof.
  split; [apply serializeForm_scan|]. intros s F B. unfold visit.
  destruct (goquery.Attr s "name") as [n|];
    [destruct (goquery.Attr s "type") as [t|];
       [destruct (decide (t = "submit")) as [->|Ht]|]|].
  - (* a submit element *)
    assert (∀ v, url.Values_Add n v B ≠ B) as Hch
      by (intros v; apply Values_Add_changes).
    destruct (goquery.Attr s "value") as [val|]; simpl;
      (split_and!;
       [split; [by eauto | by intros _] | done | by intros ? _ [=]
       | by intros ? ? _ [= <-] Hc]).
  - (* a typed element that is not a submit element *)
    assert (∀ v, url.Values_Add n v F ≠ F) as Hch
      by (intros v; apply Values_Add_changes).
    destruct (goquery.Attr s "value") as [val|]; simpl;
      (split_and!;
       [split; [done | by intros (? & _ & [= ->])] | done | by intros ? _ [=]
       | intros ? ? _ _ _; split; [done|]]).
    + split; [by eauto | by intros _].
    + split; [done | by intros [? [=]]].
  - (* no type attribute *)
    simpl. split_and!;
      [split; [done | by intros (? & _ & [=])] | done | done | by intros ? ? _ [=]].
  - (* no name attribute *)
    simpl. split_and!;
      [split; [done | by intros (? & [=] & _)] | done
      | by intros ? [=] | by intros ? ? [=]].
Qed.

(** C7: after construction, the list under a name in [buttons] is made of
    the values of the submit-type elements of that name, the empty string
    for one without a value attribute, and the list under a name in
    [fields] of the value attributes of the other typed elements of that
    name, both in the order of the scan; a name without any is not a key. *)
Theorem NewForm_values sel name :
  buttons (NewForm sel) !! name =
    entry (omap (button_value name) (scanned sel)) ∧
  fields (NewForm sel) !! name =
    entry (omap (field_value name) (scanned sel)).
Proof.
  destruct (NewForm_populated sel) as [HF HB].
  rewrite (populated_entry _ name HF), (populated_entry _ name HB).
  destruct (NewForm_maps sel) as [-> ->]. rewrite serializeForm_scan.
  destruct (scan_values (scanned sel) ∅ ∅ name) as [-> ->].
  by rewrite lookup_empty.
Qed.

Lemma map_bytes_no_lower v :
  strings.all_bytes (λ c, negb (strings.is_lower_byte c)) v = true →
  strings.map_bytes strings.upper_byte v = v.
Proof.
  induction v as [|c v IH]; simpl; [done|].
  intros [Hc Hv]%andb_prop. rewrite IH by done.
  unfold strings.upper_byte. by destruct (strings.is_lower_byte c).
Qed.

(** On a string of ASCII bytes [strings.ToUpper] is the byte-wise mapping,
    with or without its shortcut. *)
Lemma ToUpper_ascii v :
  strings.all_bytes strings.is_ascii_byte v = true →
  strings.ToUpper unicode_upper v = strings.map_bytes strings.upper_byte v.
Proof.
  intros Hv. unfold strings.ToUpper. rewrite Hv.
  destruct (strings.all_bytes (λ c, negb (strings.is_lower_byte c)) v) eqn:Hl;
    [|done].
  by rewrite map_bytes_no_lower.
Qed.

(** C8: construction is a total function of the selection, with no error
    to return; the method of the form it yields is "GET" when the form has
    no method attribute and [strings.ToUpper] of the attribute otherwise,
    which is its byte-wise upper case when the attribute is ASCII, "POST"
    for "post"; its action is what [url.Parse] gave, nil included. *)
Theorem NewForm_Method sel :
  ∃ f, NewForm sel = f ∧
    Method f = match goquery.Attr sel "method" with
               | Some v => strings.ToUpper unicode_upper v
               | None => "GET"
               end ∧
    (∀ v, goquery.Attr sel "method" = Some v →
          strings.all_bytes strings.is_ascii_byte v = true →
          Method f = strings.map_bytes strings.upper_byte v) ∧
    Action f = url_Parse (default "" (goquery.Attr sel "action")) ∧
    strings.ToUpper unicode_upper "post" = "POST".
Proof.
  eexists. split; [reflexivity|].
  unfold NewForm, formAttributes, attrOrDefault, Method, Action.
  destruct (serializeForm sel) as [F B]. simpl.
  split_and!; [| |done..].
  - by destruct (goquery.Attr sel "method").
  - intros v -> Hv. by apply ToUpper_ascii.
Qed.

(** *** What the calls leave behind *)


Lemma reshaped_refl F : reshaped F F.
Proof. split; [done|]. intros k vs Hk. exists vs. by split; [|left]. Qed.

Lemma reshaped_trans F1 F2 F3 :
  reshaped F1 F2 → reshaped F2 F3 → reshaped F1 F3.
Proof.
  intros [Hd1 H1] [Hd2 H2]. split; [by rewrite Hd2|].
  intros k vs3 Hk3. destruct (H2 k vs3 Hk3) as (vs2 & Hk2 & Hl2).
  destruct (H1 k vs2 Hk2) as (vs1 & Hk1 & Hl1).
  exists vs1. split; [done|]. lia.
Qed.

Lemma reshaped_populated F F' : populated F → reshaped F F' → populated F'.
Proof.
  intros HF [_ Hl] k vs' Hk ->. destruct (Hl k [] Hk) as (vs & Hvs & Hlen).
  apply HF in Hvs. destruct vs; [done|]. simpl in Hlen. lia.
Qed.

(** The handlers keep the keys of the fields and the lengths of their
    lists, apart from the lists that their [Input]s make single. *)
Lemma touched_reshaped buttonName h F : reshaped F (touched buttonName h F).
Proof.
  unfold touched. split.
  - apply set_eq. intros k. rewrite !elem_of_dom, map_lookup_imap.
    destruct (F !! k) as [vs|]; simpl; [|done].
    split; intros _; by eexists.
  - intros k vs'. rewrite map_lookup_imap.
    destruct (F !! k) as [vs|]; simpl; [|done].
    intros [= <-]. exists vs. split; [done|].
    destruct (h k) as [cell|value]; [|by right].
    left. case_decide; [done | apply length_imap].
Qed.

Lemma Values_Set_reshaped name value vs F :
  F !! name = Some vs → reshaped F (url.Values_Set name value F).
Proof.
  intros Hn. unfold url.Values_Set. split.
  - rewrite dom_insert_L.
    apply subseteq_union_1_L, singleton_subseteq_l. by eapply elem_of_dom_2.
  - intros k vs'. destruct (decide (name = k)) as [->|Hk].
    + rewrite lookup_insert_eq. intros [= <-]. exists vs. by split; [|right].
    + rewrite lookup_insert_ne by done. intros Hk'. exists vs'. by split; [|left].
Qed.

Lemma evolves_refl f : evolves f f.
Proof. unfold evolves. split_and!; try done. apply reshaped_refl. Qed.

Lemma evolves_trans f1 f2 f3 : evolves f1 f2 → evolves f2 f3 → evolves f1 f3.
Proof.
  intros (Hd1 & Hs1 & Hm1 & Ha1 & Hb1 & Hr1) (Hd2 & Hs2 & Hm2 & Ha2 & Hb2 & Hr2).
  unfold evolves. rewrite Hd2, Hs2, Hm2, Ha2, Hb2.
  split_and!; try done. by eapply reshaped_trans.
Qed.

Lemma handled_evolves buttonName values f :
  evolves f (handled buttonName values f).
Proof.
  unfold evolves, handled. simpl. split_and!; try done. apply touched_reshaped.
Qed.

Lemma Click_evolves b w : evolves (form w) (form (Click b w).1).
Proof.
  unfold Click.
  destruct (buttons (form w) !! b) as [[|v vs]|]; try apply evolves_refl.
  apply handled_evolves.
Qed.

Lemma Submit_evolves w : evolves (form w) (form (Submit w).1).
Proof.
  unfold Submit. case_decide; [|apply handled_evolves].
  destruct (range (clock w) (buttons (form w))) as [|[name vals] rest].
  - apply handled_evolves.
  - apply (Click_evolves name (tick w)).
Qed.

Lemma Input_evolves name value w : evolves (form w) (form (Input name value w).1).
Proof.
  unfold Input. destruct (fields (form w) !! name) as [vs|] eqn:Hn;
    [|apply evolves_refl].
  unfold evolves. simpl. split_and!; try done. by eapply Values_Set_reshaped.
Qed.

(** No call changes anything of the form but the values of its fields. *)
Lemma call_evolves c w : evolves (form w) (form (call c w).1).
Proof.
  destruct c as [| |expr|name value|button| |bn bv]; simpl;
    try apply evolves_refl.
  - pose proof (Input_evolves name value w) as He.
    destruct (Input name value w). exact He.
  - pose proof (Click_evolves button w) as He.
    destruct (Click button w). exact He.
  - pose proof (Submit_evolves w) as He.
    destruct (Submit w). exact He.
  - apply handled_evolves.
Qed.

Lemma call_buttons c w : buttons (form (call c w).1) = buttons (form w).
Proof. by destruct (call_evolves c w) as (_ & _ & _ & _ & Hb & _). Qed.

Lemma call_populated c w :
  populated (fields (form w)) → populated (fields (form (call c w).1)).
Proof.
  intros Hw. destruct (call_evolves c w) as (_ & _ & _ & _ & _ & Hr).
  by eapply reshaped_populated.
Qed.






Lemma Click_returns b w :
  populated (buttons (form w)) → (Click b w).2 ≠ Panics.
Proof.
  intros Hw. unfold Click.
  destruct (buttons (form w) !! b) as [[|v vs]|] eqn:Hb; [|done..].
  by apply Hw in Hb.
Qed.

Lemma Submit_returns w :
  populated (buttons (form w)) → (Submit w).2 ≠ Panics.
Proof.
  intros Hw. unfold Submit. case_decide; [|done].
  destruct (range (clock w) (buttons (form w))) as [|[name vals] rest]; [done|].
  by apply Click_returns.
Qed.

Lemma call_returns c w :
  populated (buttons (form w)) → (call c w).2 ≠ ReplyError Panics.
Proof.
  intros Hw.
  destruct c as [| |expr|name value|button| |bn bv]; try done; simpl.
  - by destruct (Input name value w).
  - pose proof (Click_returns button w Hw). destruct (Click button w). naive_solver.
  - pose proof (Submit_returns w Hw). destruct (Submit w). naive_solver.
Qed.

Lemma run_cons c cs w :
  (call c w).2 ≠ ReplyError Panics →
  run (c :: cs) w = ((run cs (call c w).1).1, (call c w).2 :: (run cs (call c w).1).2).
Proof.
  intros Hr. simpl. destruct (call c w) as [w' r]. simpl in *.
  destruct (run cs w') as [w'' rs]. by destruct r as [| | |[|]].
Qed.

Lemma run_cons_form c cs w :
  form (run (c :: cs) w).1 = form (run cs (call c w).1).1 ∨
  form (run (c :: cs) w).1 = form (call c w).1.
Proof.
  simpl. destruct (call c w) as [w' r]. simpl.
  destruct (run cs w') as [w'' rs]. destruct r as [| | |[|]]; auto.
Qed.

Lemma run_evolves cs w : evolves (form w) (form (run cs w).1).
Proof.
  revert w. induction cs as [|c cs IH]; intros w; [apply evolves_refl|].
  destruct (run_cons_form c cs w) as [->| ->].
  - eapply evolves_trans; [apply call_evolves | apply IH].
  - apply call_evolves.
Qed.

Lemma run_buttons cs w : buttons (form (run cs w).1) = buttons (form w).
Proof. by destruct (run_evolves cs w) as (_ & _ & _ & _ & Hb & _). Qed.



Lemma run_populated cs w :
  populated (fields (form w)) → populated (buttons (form w)) →
  populated (fields (form (run cs w).1)) ∧
  populated (buttons (form (run cs w).1)) ∧
  Forall (λ r, r ≠ ReplyError Panics) (run cs w).2.
Proof.
  revert w. induction cs as [|c cs IH]; intros w HF HB; [by split_and!|].
  rewrite run_cons by (by apply call_returns). simpl.
  destruct (IH (call c w).1) as (IHF & IHB & IHr).
  - by apply call_populated.
  - by rewrite call_buttons.
  - split_and!; [done..|]. constructor; [by apply call_returns | done].
Qed.

(** One submission of a form with populated buttons: one event, with one of
    the payloads of the form, and the form as the handlers leave it. *)
Lemma Submit_once w :
  populated (buttons (form w)) →
  ∃ bn p, submit_payload (form w) p ∧
          form (Submit w).1 = handled bn p (form w) ∧
          calls (Submit w).1 = calls w ++ [(event_Submit, form w, p)] ∧
          (Submit w).2 = answer p w.
Proof.
  intros Hw. destruct (decide (buttons (form w) = ∅)) as [He|Hne].
  - exists "", (fields (form w)). rewrite Submit_send by done.
    rewrite send_range. simpl.
    split_and!; [by left | done..].
  - destruct (Submit_Click w Hne) as (b & vs & rest & Hr & ->).
    apply range_head_elem in Hr. destruct vs as [|v vs]; [by apply Hw in Hr|].
    rewrite (Click_send b v vs (tick w)) by done.
    rewrite send_range. simpl.
    exists b. eexists. split_and!; [|done..].
    case_decide; [by left | right; by exists b, v, vs].
Qed.


(** C10: after construction and any calls, no key of [buttons] or of
    [fields] stands for an empty list, no call has panicked, and [Click] on
    a key of [buttons] finds a first value and returns. *)
Theorem lists_never_empty sel cs :
  populated (buttons (form (run cs (start sel)).1)) ∧
  populated (fields (form (run cs (start sel)).1)) ∧
  Forall (λ r, r ≠ ReplyError Panics) (run cs (start sel)).2 ∧
  ∀ b, is_Some (buttons (form (run cs (start sel)).1) !! b) →
       (∃ v vs, buttons (form (run cs (start sel)).1) !! b = Some (v :: vs)) ∧
       (Click b (run cs (start sel)).1).2 ≠ Panics.
Proof.
  destruct (NewForm_populated sel) as [HF HB].
  destruct (run_populated cs (start sel) HF HB) as (HF' & HB' & Hr).
  split_and!; [done..|]. intros b [vs Hb]. split.
  - destruct vs as [|v vs]; [by apply HB' in Hb | by exists v, vs].
  - by apply Click_returns.
Qed.

(** *** Inputs, one after the other *)

Lemma Input_known name value vs w :
  fields (form w) !! name = Some vs →
  Input name value w =
    ({| form := with_fields (<[name := [value]]> (fields (form w))) (form w);
        calls := calls w; clock := clock w |}, None).
Proof. intros Hn. unfold Input. by rewrite Hn. Qed.

Lemma Input_unknown name value w :
  fields (form w) !! name = None →
  Input name value w =
    (w, Some (errors.NewElementNotFound "No input found with name '%s'." [name])).
Proof. intros Hn. unfold Input. by rewrite Hn. Qed.

(** The last [Input] of a name wins: a second [Input] of the same name does
    what it would have done alone, to the world and in its result, whether
    the name is a field or not. *)
Theorem Input_overwrites w name v1 v2 :
  Input name v2 (Input name v1 w).1 = Input name v2 w.
Proof.
  destruct (fields (form w) !! name) as [vs|] eqn:Hn.
  - rewrite (Input_known name v1 vs w Hn). simpl.
    rewrite (Input_known name v2 [v1]) by (simpl; apply lookup_insert_eq).
    rewrite (Input_known name v2 vs w Hn). simpl.
    unfold with_fields. simpl. by rewrite insert_insert_eq.
  - by rewrite (Input_unknown name v1 w Hn).
Qed.

(** [Input]s of different names do not see each other: each succeeds or
    fails as it would alone, and the two orders leave the same world. *)
Theorem Input_commutes w n1 v1 n2 v2 :
  n1 ≠ n2 →
  (Input n1 v1 (Input n2 v2 w).1).2 = (Input n1 v1 w).2 ∧
  (Input n1 v1 (Input n2 v2 w).1).1 = (Input n2 v2 (Input n1 v1 w).1).1.
Proof.
  intros Hne.
  destruct (fields (form w) !! n1) as [vs1|] eqn:H1;
    destruct (fields (form w) !! n2) as [vs2|] eqn:H2.
  - rewrite (Input_known n2 v2 vs2 w H2). simpl.
    rewrite !(Input_known n1 v1 vs1 w H1). simpl.
    rewrite (Input_known n1 v1 vs1) by (simpl; by rewrite lookup_insert_ne).
    rewrite (Input_known n2 v2 vs2) by (simpl; by rewrite lookup_insert_ne).
    simpl. unfold with_fields. simpl. split; [done|].
    by rewrite insert_insert_ne.
  - rewrite (Input_unknown n2 v2 w H2). simpl.
    rewrite !(Input_known n1 v1 vs1 w H1). simpl.
    by rewrite (Input_unknown n2 v2) by (simpl; by rewrite lookup_insert_ne).
  - rewrite (Input_known n2 v2 vs2 w H2). simpl.
    rewrite !(Input_unknown n1 v1 w H1). simpl.
    rewrite (Input_unknown n1 v1) by (simpl; by rewrite lookup_insert_ne). simpl.
    by rewrite (Input_known n2 v2 vs2 w H2).
  - rewrite (Input_unknown n2 v2 w H2). simpl.
    rewrite !(Input_unknown n1 v1 w H1). simpl.
    by rewrite (Input_unknown n2 v2 w H2).
Qed.

(** *** Input, then Click *)

(** After a successful [Input] of a field, [Click] on a button sends one
    event, from a form that holds the new value alone under the field's
    name, and with a payload that holds it there as well, unless the button
    has that very name, and is not the empty name, where the payload holds
    the button's first value there. *)
Theorem Input_then_Click w name value old b v vs :
  fields (form w) !! name = Some old →
  buttons (form w) !! b = Some (v :: vs) →
  ∃ p, calls (Click b (Input name value w).1).1 =
         calls w ++ [(event_Submit, form (Input name value w).1, p)] ∧
       p !! name = Some [if decide (name = b ∧ b ≠ "") then v else value] ∧
       fields (form (Input name value w).1) !! name = Some [value].
Proof.
  intros Hn Hb. rewrite (Input_known name value old w Hn). simpl.
  rewrite (Click_send b v vs) by done. rewrite send_range. simpl.
  eexists. split; [done|]. split; [|apply lookup_insert_eq].
  destruct (decide (b = "")) as [->|Hb0].
  - rewrite lookup_insert_eq. rewrite decide_False; [done|]. by intros [_ Hc].
  - destruct (decide (name = b)) as [->|Hnb].
    + rewrite lookup_insert_eq. by rewrite decide_True.
    + rewrite lookup_insert_ne by done. rewrite lookup_insert_eq.
      rewrite decide_False; [done|]. by intros [Hc _].
Qed.

(** *** The order of iteration does not show *)


(** *** The keys after construction *)

Lemma NewForm_lookup sel name :
  default [] (buttons (NewForm sel) !! name) =
    omap (button_value name) (scanned sel) ∧
  default [] (fields (NewForm sel) !! name) =
    omap (field_value name) (scanned sel).
Proof.
  destruct (NewForm_maps sel) as [-> ->]. rewrite serializeForm_scan.
  destruct (scan_values (scanned sel) ∅ ∅ name) as [-> ->].
  by rewrite lookup_empty.
Qed.

Lemma populated_is_Some m k :
  populated m → is_Some (m !! k) ↔ default [] (m !! k) ≠ [].
Proof.
  intros Hm. destruct (m !! k) as [vs|] eqn:Hk; simpl.
  - split; [intros _; by eapply Hm | by eauto].
  - split; [by intros [? ?] | done].
Qed.

Lemma omap_nonempty {A B} (g : A → option B) (l : list A) :
  omap g l ≠ [] ↔ ∃ x, x ∈ l ∧ is_Some (g x).
Proof.
  induction l as [|x l IH]; simpl.
  - split; [done | by intros (x & Hx%elem_of_nil & _)].
  - destruct (g x) as [y|] eqn:Hg.
    + split; [intros _ | done]. exists x. split; [left | by rewrite Hg].
    + rewrite IH. split.
      * intros (x' & Hx' & Hs). exists x'. split; [by right | done].
      * intros (x' & [->|Hx']%elem_of_cons & Hs).
        -- rewrite Hg in Hs. by destruct Hs.
        -- by exists x'.
Qed.

Lemma button_value_Some name s :
  is_Some (button_value name s) ↔
  goquery.Attr s "name" = Some name ∧ goquery.Attr s "type" = Some "submit".
Proof.
  unfold button_value.
  destruct (goquery.Attr s "name") as [n|]; [|split; [by intros [? ?] | by intros [? _]]].
  destruct (goquery.Attr s "type") as [t|]; [|split; [by intros [? ?] | by intros [_ ?]]].
  case_decide as Hd.
  - destruct Hd as [-> ->]. split; [done | by eauto].
  - split; [by intros [? ?] | intros [[= ->] [= ->]]; by destruct Hd].
Qed.

Lemma field_value_Some name s :
  is_Some (field_value name s) ↔
  ∃ t, goquery.Attr s "name" = Some name ∧ goquery.Attr s "type" = Some t ∧
       t ≠ "submit" ∧ is_Some (goquery.Attr s "value").
Proof.
  unfold field_value.
  destruct (goquery.Attr s "name") as [n|];
    [|split; [by intros [? ?] | by intros (? & ? & _)]].
  destruct (goquery.Attr s "type") as [t|];
    [|split; [by intros [? ?] | by intros (? & _ & ? & _)]].
  case_decide as Hd.
  - destruct Hd as [-> Ht]. split; [intros Hv; by exists t|].
    by intros (? & _ & _ & _ & Hv).
  - split; [by intros [? ?]|].
    intros (t' & [= ->] & [= ->] & Ht & _). by destruct Hd.
Qed.

(** After construction a name is a key of [buttons] exactly when some
    scanned element has that name and the type "submit", and a key of
    [fields] exactly when some scanned element has that name, a type other
    than "submit", and a value attribute. *)
Theorem NewForm_keys sel name :
  (is_Some (buttons (NewForm sel) !! name) ↔
     ∃ s, s ∈ scanned sel ∧ goquery.Attr s "name" = Some name ∧
          goquery.Attr s "type" = Some "submit") ∧
  (is_Some (fields (NewForm sel) !! name) ↔
     ∃ s t, s ∈ scanned sel ∧ goquery.Attr s "name" = Some name ∧
            goquery.Attr s "type" = Some t ∧ t ≠ "submit" ∧
            is_Some (goquery.Attr s "value")).
Proof.
  destruct (NewForm_populated sel) as [HF HB].
  destruct (NewForm_lookup sel name) as [HlB HlF].
  rewrite (populated_is_Some _ name HB), (populated_is_Some _ name HF).
  rewrite HlB, HlF, !omap_nonempty. split.
  - split.
    + intros (s & Hs & Hv%button_value_Some). by exists s.
    + intros (s & Hs & Hv). exists s. split; [done|]. by apply button_value_Some.
  - split.
    + intros (s & Hs & (t & Hv)%field_value_Some). by exists s, t.
    + intros (s & t & Hs & Hv). exists s. split; [done|].
      apply field_value_Some. by exists t.
Qed.

(** A form none of whose scanned elements has both a name and a type has
    no field and no button, whatever else its elements carry. *)
Theorem NewForm_no_typed_names sel :
  (∀ s, s ∈ scanned sel →
        goquery.Attr s "name" = None ∨ goquery.Attr s "type" = None) →
  fields (NewForm sel) = ∅ ∧ buttons (NewForm sel) = ∅.
Proof.
  intros Hs. destruct (NewForm_populated sel) as [HF HB].
  split; apply map_empty; intros name; apply eq_None_not_Some.
  - rewrite (populated_is_Some _ name HF).
    destruct (NewForm_lookup sel name) as [_ ->]. rewrite omap_nonempty.
    intros (s & Hin & (t & Hn & Ht & _)%field_value_Some).
    destruct (Hs s Hin) as [Hc|Hc]; congruence.
  - rewrite (populated_is_Some _ name HB).
    destruct (NewForm_lookup sel name) as [-> _]. rewrite omap_nonempty.
    intros (s & Hin & [Hn Ht]%button_value_Some).
    destruct (Hs s Hin) as [Hc|Hc]; congruence.
Qed.

(** The value that [Click] submits for a button is the value of the first
    scanned element that is a submit element of that name, at any time
    after construction: later elements of the same name are not submitted,
    and no call in between changes that. *)
Theorem Click_first_element sel cs b l1 s l2 v :
  scanned sel = l1 ++ s :: l2 →
  omap (button_value b) l1 = [] →
  button_value b s = Some v →
  b ≠ "" →
  Click b (run cs (start sel)).1 =
    (submitted b (<[b := [v]]> (fields (form (run cs (start sel)).1)))
       (run cs (start sel)).1,
     answer (<[b := [v]]> (fields (form (run cs (start sel)).1)))
       (run cs (start sel)).1).
Proof.
  intros Hscan Hl1 Hs Hb.
  assert (buttons (form (run cs (start sel)).1) !! b =
          Some (v :: omap (button_value b) l2)) as Hlook.
  { rewrite run_buttons. simpl.
    destruct (NewForm_populated sel) as [_ HB].
    rewrite (populated_entry _ b HB).
    destruct (NewForm_lookup sel b) as [-> _].
    rewrite Hscan, omap_app, Hl1. simpl. by rewrite Hs. }
  rewrite (Click_send b v _ _ Hlook), send_range. simpl.
  by rewrite decide_False.
Qed.

(** *** The method after construction *)

Lemma upper_byte_not_lower c :
  strings.is_lower_byte (strings.upper_byte c) = false.
Proof. by destruct c as [[] [] [] [] [] [] [] []]. Qed.

Lemma upper_byte_ascii c :
  strings.is_ascii_byte c = true →
  strings.is_ascii_byte (strings.upper_byte c) = true.
Proof. by destruct c as [[] [] [] [] [] [] [] []]. Qed.

Lemma map_upper_no_lower v :
  strings.all_bytes (λ c, negb (strings.is_lower_byte c))
    (strings.map_bytes strings.upper_byte v) = true.
Proof.
  induction v as [|c v IH]; [done|].
  cbn [strings.map_bytes strings.all_bytes].
  by rewrite upper_byte_not_lower, IH.
Qed.

Lemma map_upper_ascii v :
  strings.all_bytes strings.is_ascii_byte v = true →
  strings.all_bytes strings.is_ascii_byte
    (strings.map_bytes strings.upper_byte v) = true.
Proof.
  induction v as [|c v IH]; [done|].
  cbn [strings.map_bytes strings.all_bytes].
  intros [Hc Hv]%andb_prop. by rewrite (upper_byte_ascii c Hc), IH.
Qed.

Lemma NewForm_method sel :
  Method (NewForm sel) =
  strings.ToUpper unicode_upper (attrOrDefault "method" "GET" sel).
Proof. unfold NewForm, formAttributes, Method. by destruct (serializeForm sel). Qed.

(** When the method attribute of the form is absent or made of ASCII
    bytes, the method of the constructed form is made of ASCII bytes, has
    no lower-case letter, and [strings.ToUpper] leaves it as it is. *)
Theorem NewForm_Method_upper sel :
  (∀ v, goquery.Attr sel "method" = Some v →
        strings.all_bytes strings.is_ascii_byte v = true) →
  strings.all_bytes strings.is_ascii_byte (Method (NewForm sel)) = true ∧
  strings.all_bytes (λ c, negb (strings.is_lower_byte c)) (Method (NewForm sel)) = true ∧
  strings.ToUpper unicode_upper (Method (NewForm sel)) = Method (NewForm sel).
Proof.
  intros Hv.
  assert (strings.all_bytes strings.is_ascii_byte (Method (NewForm sel)) = true ∧
          strings.all_bytes (λ c, negb (strings.is_lower_byte c))
            (Method (NewForm sel)) = true) as [Ha Hl].
  { rewrite NewForm_method. unfold attrOrDefault.
    destruct (goquery.Attr sel "method") as [v|]; [|done].
    rewrite ToUpper_ascii by (by apply Hv).
    split; [apply map_upper_ascii; by apply Hv | apply map_upper_no_lower]. }
  split_and!; [done..|].
  unfold strings.ToUpper at 1. by rewrite Ha, Hl.
Qed.

(** *** The events of a sequence of calls *)

Lemma send_calls bn bv w :
  ∃ p, calls (send bn bv w).1 = calls w ++ [(event_Submit, form w, p)] ∧
       (p = fields (form w) ∨ ∃ bn' bv', p = <[bn' := [bv']]> (fields (form w))).
Proof.
  rewrite send_range. simpl. eexists. split; [done|].
  case_decide; [by left | right; by eauto].
Qed.

Lemma Click_calls b w :
  calls (Click b w).1 = calls w ∨
  ∃ p, calls (Click b w).1 = calls w ++ [(event_Submit, form w, p)] ∧
       (p = fields (form w) ∨ ∃ bn' bv', p = <[bn' := [bv']]> (fields (form w))).
Proof.
  unfold Click. destruct (buttons (form w) !! b) as [[|v vs]|]; [by left| |by left].
  right. destruct (send_calls b v w) as (p & Hc & Hp).
  exists p. by destruct (send b v w).
Qed.

Lemma Submit_calls w :
  calls (Submit w).1 = calls w ∨
  ∃ p, calls (Submit w).1 = calls w ++ [(event_Submit, form w, p)] ∧
       (p = fields (form w) ∨ ∃ bn' bv', p = <[bn' := [bv']]> (fields (form w))).
Proof.
  unfold Submit. case_decide.
  - destruct (range (clock w) (buttons (form w))) as [|[name vals] rest].
    + right. destruct (send_calls "" "" (tick w)) as (p & Hc & Hp).
      exists p. by destruct (send "" "" (tick w)).
    + apply (Click_calls name (tick w)).
  - right. destruct (send_calls "" "" w) as (p & Hc & Hp).
    exists p. by destruct (send "" "" w).
Qed.

Lemma call_calls c w :
  ∃ new, calls (call c w).1 = calls w ++ new ∧
         (List.length new ≤ if may_submit c then 1 else 0)%nat ∧
         Forall (λ e, sent_by_send e ∧ e.1.2 = form w) new.
Proof.
  assert (∀ w' : World,
    (calls w' = calls w ∨
     ∃ p, calls w' = calls w ++ [(event_Submit, form w, p)] ∧
          (p = fields (form w) ∨ ∃ bn' bv', p = <[bn' := [bv']]> (fields (form w)))) →
    ∃ new, calls w' = calls w ++ new ∧ (List.length new ≤ 1)%nat ∧
           Forall (λ e, sent_by_send e ∧ e.1.2 = form w) new) as Hshape.
  { intros w' [Hc|(p & Hc & Hp)].
    - exists []. rewrite (right_id_L [] (++)). split_and!; [done|simpl; lia|constructor].
    - exists [(event_Submit, form w, p)]. split_and!; [done|simpl; lia|].
      constructor; [|constructor]. by split. }
  assert (∃ new, calls w = calls w ++ new ∧ (List.length new ≤ 0)%nat ∧
                 Forall (λ e, sent_by_send e ∧ e.1.2 = form w) new) as Hnone.
  { exists []. rewrite (right_id_L [] (++)). split_and!; [done|simpl; lia|constructor]. }
  destruct c as [| |expr|name value|button| |bn bv]; simpl; try done.
  - unfold Input. by destruct (fields (form w) !! name).
  - pose proof (Hshape _ (Click_calls button w)) as Hx.
    destruct (Click button w). exact Hx.
  - pose proof (Hshape _ (Submit_calls w)) as Hx.
    destruct (Submit w). exact Hx.
  - exact (Hshape (send bn bv w).1 (or_intror (send_calls bn bv w))).
Qed.

Lemma run_cons_world c cs w :
  (run (c :: cs) w).1 = (run cs (call c w).1).1 ∨
  (run (c :: cs) w).1 = (call c w).1.
Proof.
  simpl. destruct (call c w) as [w' r]. simpl.
  destruct (run cs w') as [w'' rs]. destruct r as [| | |[|]]; auto.
Qed.

(** The events of a run, for a property [P] of the form that the calls
    keep and a property [Q] that it gives to the events sent under it. *)
Lemma run_calls (P : Form → Prop) (Q : Event * Form * Values → Prop) :
  (∀ c w, P (form w) → P (form (call c w).1)) →
  (∀ e, P e.1.2 → sent_by_send e → Q e) →
  ∀ cs w, P (form w) →
    ∃ new, calls (run cs w).1 = calls w ++ new ∧
           (List.length new ≤ submissions cs)%nat ∧ Forall Q new.
Proof.
  intros Hkeep HQ cs. induction cs as [|c cs IH]; intros w Hw.
  - exists []. rewrite (right_id_L [] (++)). by split_and!.
  - destruct (call_calls c w) as (new1 & Hc1 & Hlen1 & HF1).
    assert (Forall Q new1) as HQ1.
    { eapply Forall_impl; [exact HF1|]. intros e [Hsent He]. apply HQ; [|done].
      by rewrite He. }
    cbn [submissions].
    destruct (run_cons_world c cs w) as [-> | ->].
    + destruct (IH (call c w).1 (Hkeep c w Hw)) as (new2 & Hc2 & Hlen2 & HF2).
      exists (new1 ++ new2). rewrite Hc2, Hc1, (assoc_L (++)).
      split_and!; [done| |by apply Forall_app].
      rewrite length_app. lia.
    + exists new1. split_and!; [done|lia|done].
Qed.

(** Whatever the calls, the events are only added to: a run adds at most
    one event for each [Click], [Submit] or [send], none for the other
    calls, and each of them is a "submit" event sent by a form with the
    buttons of the start, whose payload is the fields of that form, alone or
    with one entry set to a single value. *)
Theorem calls_grow cs w :
  ∃ new, calls (run cs w).1 = calls w ++ new ∧
         (List.length new ≤ submissions cs)%nat ∧
         Forall (λ e, sent_by_send e ∧ buttons e.1.2 = buttons (form w)) new.
Proof.
  apply (run_calls (λ f, buttons f = buttons (form w))); [| |done].
  - intros c w' Hw'. by rewrite call_buttons.
  - by intros e He Hsent.
Qed.

(** After construction and any calls, every payload that was sent, and the
    fields of the form that sent it, have no key that stands for an empty
    list. *)
Theorem payloads_populated sel cs :
  Forall (λ e, populated e.2 ∧ populated (fields e.1.2))
         (calls (run cs (start sel)).1).
Proof.
  destruct (NewForm_populated sel) as [HF _].
  destruct (run_calls (λ f, populated (fields f))
              (λ e, populated e.2 ∧ populated (fields e.1.2))
              call_populated) with (cs := cs) (w := start sel)
    as (new & -> & _ & Hnew); [|done|done].
  intros e He [_ [Hp|(bn & bv & Hp)]]; (split; [|done]); rewrite Hp; [done|].
  intros k vs. destruct (decide (bn = k)) as [->|Hk].
  - rewrite lookup_insert_eq. by intros [= <-].
  - rewrite lookup_insert_ne by done. apply He.
Qed.

(** After construction and any calls, [Submit] has no failure of its own:
    it sends exactly one event, with the fields alone or with the first
    value of one of the buttons, and returns what the handlers answer. *)
Theorem Submit_answers sel cs :
  ∃ p, submit_payload (form (run cs (start sel)).1) p ∧
       calls (Submit (run cs (start sel)).1).1 =
         calls (run cs (start sel)).1 ++
         [(event_Submit, form (run cs (start sel)).1, p)] ∧
       (Submit (run cs (start sel)).1).2 = answer p (run cs (start sel)).1.
Proof.
  destruct (NewForm_populated sel) as [HF HB].
  destruct (run_populated cs (start sel) HF HB) as (_ & HB' & _).
  destruct (Submit_once _ HB') as (bn & p & Hp & _ & Hc & Ho). by exists p.
Qed.

(** *** What the calls keep *)

(** Whatever the calls, [Input] included, and whatever the handlers do,
    [Method], [Action] and [Find] answer after them what they answered
    before, the dispatcher and the buttons are the same, the keys of
    [fields] are the same, and each field holds as many values as it held
    or a single value. *)
Theorem calls_change_only_values cs w :
  Method (form (run cs w).1) = Method (form w) ∧
  Action (form (run cs w).1) = Action (form w) ∧
  (∀ expr, Find expr (form (run cs w).1) = Find expr (form w)) ∧
  dispatcher (form (run cs w).1) = dispatcher (form w) ∧
  buttons (form (run cs w).1) = buttons (form w) ∧
  dom (fields (form (run cs w).1)) = dom (fields (form w)) ∧
  ∀ k vs', fields (form (run cs w).1) !! k = Some vs' →
    ∃ vs, fields (form w) !! k = Some vs ∧
          (List.length vs' = List.length vs ∨ List.length vs' = 1%nat).
Proof.
  destruct (run_evolves cs w) as (Hd & Hs & Hm & Ha & Hb & Hdom & Hlen).
  unfold Method, Action, Find. rewrite Hs. by split_and!.
Qed.

End properties.

(** *** Submit and the order of the buttons *)

Lemma range_from_perm b (m : Values) : range_from b m ≡ₚ map_to_list m.
Proof.
  unfold range_from. destruct (m !! b) as [vs|] eqn:Hb; [|done].
  by apply map_to_list_delete.
Qed.

(** [Submit] may click any button of the form, the first one of the
    document or not: for each key of [buttons] there is an order of
    iteration, visiting each entry of a map once, under which [Submit] is
    the [Click] of that key and sends its first value, when the key is not
    the empty name. *)
Theorem Submit_may_click_any_button `{H : Host}
    (handlers : Dispatcher → Event → Form → Values → option errors.error)
    (edits : Dispatcher → Event → Form → Values → string → Handling)
    (w : World) (b v : string) (vs : list string) :
  buttons (form w) !! b = Some (v :: vs) →
  ∃ order : nat → Values → list (string * list string),
    (∀ n m, order n m ≡ₚ map_to_list m) ∧
    @Submit H {| Do := handlers; handling := edits; range := order |} w =
      @Click H {| Do := handlers; handling := edits; range := order |} b (tick w) ∧
    (b ≠ "" →
     calls (@Submit H {| Do := handlers; handling := edits; range := order |} w).1 =
       calls w ++ [(event_Submit, form w, <[b := [v]]> (fields (form w)))]).
Proof.
  intros Hb. exists (λ _, range_from b).
  assert (∀ n (m : Values), (λ _ : nat, range_from b) n m ≡ₚ map_to_list m) as Hperm
    by (intros n m; apply range_from_perm).
  assert (@Submit H {| Do := handlers; handling := edits; range := λ _, range_from b |} w =
          @Click H {| Do := handlers; handling := edits; range := λ _, range_from b |} b (tick w)) as HS.
  { unfold Submit. simpl. unfold range_from at 1. rewrite Hb.
    rewrite decide_True; [done|].
    destruct (decide (size (buttons (form w)) = 0)) as [Hz%map_size_empty_iff|]; [|lia].
    by rewrite Hz, lookup_empty in Hb. }
  split_and!; [done..|]. intros Hne. rewrite HS.
  rewrite (@Click_send H {| Do := handlers; handling := edits; range := λ _, range_from b |} b v vs (tick w) Hb).
  rewrite (@send_range H {| Do := handlers; handling := edits; range := λ _, range_from b |} Hperm).
  simpl. by rewrite decide_False.
Qed.

(** ** The properties on the document model *)

Import html.

Lemma html_range_perm n (m : Values) : range n m ≡ₚ map_to_list m.
Proof.
  simpl. unfold rotate. rewrite Permutation_app_comm. by rewrite take_drop.
Qed.




(** The login form: its maps, and a click on its button "go". *)
Example login_maps :
  map_to_list (fields (NewForm login)) = [("user", ["joe"]); ("tag", ["a"; "b"])] ∧
  map_to_list (buttons (NewForm login)) = [("go", ["1"]); ("cancel", [""])].
Proof. split; vm_compute; reflexivity. Qed.

Example login_Click_go :
  map (λ c, map_to_list c.2) (calls (Click "go" (start login)).1) =
    [[("go", ["1"]); ("user", ["joe"]); ("tag", ["a"; "b"])]] ∧
  (Click "go" (start login)).2 = Returns None.
Proof. split; vm_compute; reflexivity. Qed.

(** [range] starts elsewhere at each statement: the same form, submitted
    after one more statement, clicks "cancel" and no longer "go". *)
Example login_Submit_varies :
  map (λ c, (c.2 !! "go", c.2 !! "cancel")) (calls (Submit (start login)).1) =
    [(Some ["1"], None)] ∧
  map (λ c, (c.2 !! "go", c.2 !! "cancel")) (calls (Submit (tick (start login))).1) =
    [(None, Some [""])].
Proof. split; vm_compute; reflexivity. Qed.

(** A handler that writes into the slice of the payload under the name of
    the clicked button writes the slice that [values.Set] made, not the
    field of that name; under the name of another field it writes the
    field. *)
Example twice_Click_scribbled :
  fields (form (@Click host (scribbling "go") "go" (start twice)).1) !! "go" =
    Some ["0"] ∧
  fields (form (@send host (scribbling "go") "" "" (start twice)).1) !! "go" =
    Some ["z"].
Proof. split; vm_compute; reflexivity. Qed.


(** C1, as stated, fails on the form whose button has the empty name: the
    name is a key of [buttons], and [Click] submits the fields without any
    entry for it. *)
Lemma Click_empty_name_counterexample :
  buttons (form (start anonymous)) !! "" = Some ["go"] ∧
  ¬ Click_sets_button (start anonymous) "".
Proof.
  assert (buttons (form (start anonymous)) !! "" = Some ["go"]) as Hb
    by (vm_compute; reflexivity).
  split; [done|]. intros Hc. apply Hc in Hb.
  apply (f_equal (λ x, map (λ c, c.2 !! "") (calls x.1))) in Hb.
  vm_compute in Hb. discriminate Hb.
Qed.

(** The login form and its button "go". *)
Lemma Click_known_button_witness :
  buttons (form (start login)) !! "go" = Some ["1"] ∧
  Click "go" (start login) =
    (submitted "go" (<["go" := ["1"]]> (fields (form (start login)))) (start login),
     answer (<["go" := ["1"]]> (fields (form (start login)))) (start login)).
Proof.
  split; [vm_compute; reflexivity|].
  apply (@Click_known_button host runtime html_range_perm
           (start (H:=host) login) "go" "1" []).
  vm_compute; reflexivity.
Defined.

(** The field "tag" of the login form, with two values, and a name it lacks. *)
Lemma Input_replaces_or_fails_witness :
  fields (form (start login)) !! "tag" = Some ["a"; "b"] ∧
  fields (form (Input "tag" "c" (start login)).1) !! "tag" = Some ["c"] ∧
  fields (form (start login)) !! "missing" = None ∧
  (Input "missing" "x" (start login)).1 = start login.
Proof.
  destruct (@Input_replaces_or_fails host (start (H:=host) login) "tag" "c")
    as (Hset & _ & _).
  destruct (@Input_replaces_or_fails host (start (H:=host) login) "missing" "x")
    as (_ & Hfail & _).
  assert (fields (form (start login)) !! "tag" = Some ["a"; "b"]) as Htag
    by (vm_compute; reflexivity).
  assert (fields (form (start login)) !! "missing" = None) as Hmiss
    by (vm_compute; reflexivity).
  refine (conj Htag (conj _ (conj Hmiss _))).
  - exact (proj2 (proj2 (Hset _ Htag))).
  - exact (proj2 (Hfail Hmiss)).
Defined.

(** A name that is no button of the login form. *)
Lemma Click_unknown_button_witness :
  buttons (form (start login)) !! "nope" = None ∧
  (Click "nope" (start login)).1 = start login.
Proof.
  assert (buttons (form (start login)) !! "nope" = None) as Hb
    by (vm_compute; reflexivity).
  refine (conj Hb _).
  destruct (@Click_unknown_button host runtime (start (H:=host) login) "nope" Hb)
    as (_ & _ & _ & _ & Hw).
  exact Hw.
Defined.

(** The search form, which has no button. *)
Lemma Submit_no_buttons_witness :
  buttons (form (start search)) = ∅ ∧
  Submit (start search) =
    (submitted "" (fields (form (start search))) (start search),
     answer (fields (form (start search))) (start search)).
Proof.
  assert (buttons (form (start search)) = ∅) as Hb by (vm_compute; reflexivity).
  refine (conj Hb _).
  exact (@Submit_no_buttons host runtime html_range_perm (start (H:=host) search) Hb).
Defined.

(** The login form, which has two buttons. *)
Lemma Submit_clicks_some_button_witness :
  buttons (form (start login)) ≠ ∅ ∧
  ∃ b, is_Some (buttons (form (start login)) !! b) ∧
       (Submit (start login)).2 = (Click b (start login)).2 ∧
       calls (Submit (start login)).1 = calls (Click b (start login)).1.
Proof.
  assert (buttons (form (start login)) ≠ ∅) as Hne
    by (apply (bool_decide_unpack _); vm_compute; exact I).
  refine (conj Hne _).
  destruct (@Submit_clicks_some_button host runtime html_range_perm
              (start (H:=host) login) Hne)
    as [(b & Hb & _ & Ho & Hc & _) _].
  exists b. exact (conj Hb (conj Ho Hc)).
Defined.


(** The button "go" of the login form, after an [Input] and a [Submit]. *)
Lemma lists_never_empty_witness :
  is_Some (buttons (form (run [CallInput "user" "ann"; CallSubmit] (start login)).1) !! "go") ∧
  (Click "go" (run [CallInput "user" "ann"; CallSubmit] (start login)).1).2 ≠ Panics.
Proof.
  destruct (@lists_never_empty host runtime login [CallInput "user" "ann"; CallSubmit])
    as (_ & _ & _ & Hclick).
  assert (is_Some (buttons (form (run [CallInput "user" "ann"; CallSubmit]
                     (start login)).1) !! "go")) as Hgo
    by (exists ["1"]; vm_compute; reflexivity).
  exact (conj Hgo (proj2 (Hclick "go" Hgo))).
Defined.

(** The login form, whose method attribute is "post". *)
Lemma NewForm_Method_witness :
  goquery.Attr login "method" = Some "post" ∧
  Method (NewForm login) = "POST".
Proof.
  destruct (@NewForm_Method host login) as (f & <- & _ & Hupper & _).
  exact (conj eq_refl (Hupper "post" eq_refl eq_refl)).
Defined.

(** An element with a name and no type, after the scan of the login form. *)
Lemma visit_classifies_witness :
  goquery.Attr [input [("name", "note")]] "name" = Some "note" ∧
  goquery.Attr [input [("name", "note")]] "type" = None ∧
  visit (fields (NewForm login), buttons (NewForm login)) [input [("name", "note")]] =
    (fields (NewForm login), buttons (NewForm login)).
Proof.
  destruct (@visit_classifies host login) as [_ Hs].
  destruct (Hs [input [("name", "note")]]
              (fields (NewForm (H:=host) login)) (buttons (NewForm (H:=host) login)))
    as (_ & _ & Hnotype & _).
  exact (conj eq_refl (conj eq_refl (Hnotype "note" eq_refl eq_refl))).
Defined.

(** ** More of the document model *)

(** The fields "user" and "tag" of the login form. *)
Lemma Input_commutes_witness :
  "user" ≠ "tag" ∧
  (Input "user" "ann" (Input "tag" "c" (start login)).1).1 =
  (Input "tag" "c" (Input "user" "ann" (start login)).1).1.
Proof.
  assert ("user" ≠ "tag") as Hne by discriminate.
  exact (conj Hne (proj2 (@Input_commutes host (start (H:=host) login)
                            "user" "ann" "tag" "c" Hne))).
Defined.

(** The form with a field and two buttons, all named "go". *)
Lemma Input_then_Click_witness :
  fields (form (start twice)) !! "go" = Some ["0"] ∧
  buttons (form (start twice)) !! "go" = Some ["1"; "2"] ∧
  ∃ p, calls (Click "go" (Input "go" "9" (start twice)).1).1 =
         calls (start twice) ++
         [(event_Submit, form (Input "go" "9" (start twice)).1, p)] ∧
       p !! "go" = Some ["1"] ∧
       fields (form (Input "go" "9" (start twice)).1) !! "go" = Some ["9"].
Proof.
  assert (fields (form (start twice)) !! "go" = Some ["0"]) as Hn
    by (vm_compute; reflexivity).
  assert (buttons (form (start twice)) !! "go" = Some ["1"; "2"]) as Hb
    by (vm_compute; reflexivity).
  exact (conj Hn (conj Hb
    (@Input_then_Click host runtime html_range_perm (start (H:=host) twice)
       "go" "9" ["0"] "go" "1" ["2"] Hn Hb))).
Defined.


(** The form whose elements have a name or a type, never both. *)
Lemma NewForm_no_typed_names_witness :
  Forall (λ s, goquery.Attr s "name" = None ∨ goquery.Attr s "type" = None)
         (scanned untyped) ∧
  fields (NewForm untyped) = ∅ ∧ buttons (NewForm untyped) = ∅.
Proof.
  assert (Forall (λ s, goquery.Attr s "name" = None ∨ goquery.Attr s "type" = None)
                 (scanned (H:=host) untyped)) as Hs
    by (apply (bool_decide_unpack _); vm_compute; exact I).
  exact (conj Hs (@NewForm_no_typed_names host untyped
                    (proj1 (Forall_forall _ _) Hs))).
Defined.

(** The second of the two buttons named "go" is never submitted. *)
Lemma Click_first_element_witness :
  scanned twice =
    [[input [("name", "go"); ("type", "hidden"); ("value", "0")]]] ++
    [input [("name", "go"); ("type", "submit"); ("value", "1")]] ::
    [[input [("name", "go"); ("type", "submit"); ("value", "2")]]] ∧
  Click "go" (run [CallInput "go" "9"] (start twice)).1 =
    (submitted "go"
       (<["go" := ["1"]]> (fields (form (run [CallInput "go" "9"] (start twice)).1)))
       (run [CallInput "go" "9"] (start twice)).1,
     answer (<["go" := ["1"]]> (fields (form (run [CallInput "go" "9"] (start twice)).1)))
       (run [CallInput "go" "9"] (start twice)).1).
Proof.
  assert ("go" ≠ "") as Hne by discriminate.
  exact (conj eq_refl
    (@Click_first_element host runtime html_range_perm twice [CallInput "go" "9"] "go"
       [[input [("name", "go"); ("type", "hidden"); ("value", "0")]]]
       [input [("name", "go"); ("type", "submit"); ("value", "1")]]
       [[input [("name", "go"); ("type", "submit"); ("value", "2")]]]
       "1" eq_refl eq_refl eq_refl Hne)).
Defined.

(** The login form, whose method attribute is "post". *)
Lemma NewForm_Method_upper_witness :
  goquery.Attr login "method" = Some "post" ∧
  strings.all_bytes (λ c, negb (strings.is_lower_byte c)) (Method (NewForm login)) = true.
Proof.
  assert (∀ v, @goquery.Attr (@Selection host) _ login "method" = Some v →
               strings.all_bytes strings.is_ascii_byte v = true) as Hv
    by (intros v [= <-]; reflexivity).
  exact (conj eq_refl (proj1 (proj2 (@NewForm_Method_upper host login Hv)))).
Defined.

(** Four calls on the login form, two of which can submit. *)
Lemma calls_grow_witness :
  ∃ new, calls (run [CallMethod; CallSubmit; CallInput "user" "ann"; CallClick "go"]
                  (start login)).1 = calls (start login) ++ new ∧
         (List.length new ≤ 2)%nat.
Proof.
  destruct (@calls_grow host runtime html_range_perm
              [CallMethod; CallSubmit; CallInput "user" "ann"; CallClick "go"]
              (start (H:=host) login)) as (new & Hc & Hlen & _).
  exists new. exact (conj Hc Hlen).
Defined.

Lemma payloads_populated_witness :
  Forall (λ e, populated e.2 ∧ populated (fields e.1.2))
         (calls (run [CallSubmit; CallInput "user" "ann"; CallClick "go"]
                   (start login)).1).
Proof.
  exact (@payloads_populated host runtime html_range_perm login
           [CallSubmit; CallInput "user" "ann"; CallClick "go"]).
Defined.

Lemma Submit_answers_witness :
  ∃ p, (Submit (run [CallInput "user" "ann"] (start login)).1).2 =
       answer p (run [CallInput "user" "ann"] (start login)).1.
Proof.
  destruct (@Submit_answers host runtime html_range_perm login [CallInput "user" "ann"])
    as (p & _ & _ & Ho).
  exists p. exact Ho.
Defined.

(** The button "cancel" of the login form, the last one of the document. *)
Lemma Submit_may_click_any_button_witness :
  buttons (form (start login)) !! "cancel" = Some [""] ∧
  ∃ order : nat → Values → list (string * list string),
    (∀ n m, order n m ≡ₚ map_to_list m) ∧
    calls (@Submit host {| Do := Do; handling := handling; range := order |}
             (start login)).1 =
      calls (start login) ++
      [(event_Submit, form (start login),
        <["cancel" := [""]]> (fields (form (start login))))].
Proof.
  assert (buttons (form (start login)) !! "cancel" = Some [""]) as Hb
    by (vm_compute; reflexivity).
  assert ("cancel" ≠ "") as Hne by discriminate.
  destruct (@Submit_may_click_any_button host Do handling
              (start (H:=host) login) "cancel" "" [] Hb)
    as (order & Hperm & _ & Hc).
  refine (conj Hb _). exists order. exact (conj Hperm (Hc Hne)).
Defined.
